(** * libnetwork controller: networks, drivers and the sandbox table

    A shallow embedding of [controller.go].  The controller owns three Go
    maps (networks, drivers, sandboxes); every method is modelled as a
    function on an explicit program state.  The collaborators the file only
    calls (drivers, the sandbox provider, the identifier generator, the Go
    runtime's map iteration) are interfaces here too: type classes whose
    methods act on an abstract environment [Env].

    A method holds the controller's mutex while it reads or writes a table
    ([NewNetwork] takes it twice and calls the driver in between); the model
    is the one of calls that run one after the other. *)

From Stdlib Require Import ZArith.
From stdpp Require Import base gmap strings list fin_maps.

Open Scope Z_scope.

(** ** Data model *)

(** [types.UUID] is a named string type. *)
Abbreviation UUID := string (only parsing).

(** Modelled from the spec: the package's error values are declared outside
    [controller.go].  [NetworkTypeError] is the spec's UnknownDriverType,
    [ErrInvalidNetworkDriver] its InvalidDriver and [NetworkNameError] its
    DuplicateName; [ErrOpaque] stands for every other value of Go's [error]
    interface, which is what a collaborator may hand back. *)
Inductive error : Type :=
  | NetworkTypeError (networkType : string)
  | ErrInvalidNetworkDriver
  | NetworkNameError (name : string)
  | ErrOpaque (msg : string).

(** Go's [int] on the 64-bit targets: two's complement wrap-around. *)
Definition int_wrap (z : Z) : Z := (z + 2 ^ 63) mod 2 ^ 64 - 2 ^ 63.
Definition int_incr (z : Z) : Z := int_wrap (z + 1).
Definition int_decr (z : Z) : Z := int_wrap (z - 1).

(** The driver interface: the two methods the controller calls. *)
Class Driver (D Options Env : Type) := {
  Config : D → Options → Env → option error * Env;
  CreateNetwork : D → UUID → Options → Env → option error * Env;
}.

(** [sandbox.NewSandbox] and the [Destroy] method of a [sandbox.Sandbox]. A Go
    interface value may be nil, hence the [option] around the handle. *)
Class SandboxProvider (Sandbox Env : Type) := {
  NewSandbox : string → Env → (option Sandbox * option error) * Env;
  Destroy : Sandbox → Env → Env;
}.

(** What the controller takes from the runtime: [stringid.GenerateRandomID]
    and the order in which [range] walks a map, which Go leaves unspecified
    apart from yielding every entry once. *)
Class Runtime (Env : Type) := {
  GenerateRandomID : Env → string * Env;
  map_range : ∀ {V : Type}, gmap string V → Env → list (string * V) * Env;
  map_range_perm : ∀ {V : Type} (m : gmap string V) (e : Env),
    (map_range m e).1 ≡ₚ map_to_list m;
}.

Section controller.
Context {D Options Sandbox Endpoint Env : Type}.
Context `{!Driver D Options Env, !SandboxProvider Sandbox Env, !Runtime Env}.

(** [type sandboxData struct { sandbox sandbox.Sandbox; refCnt int }] *)
Record sandboxData : Type := mkSandboxData {
  sandbox : option Sandbox;
  refCnt : Z;
}.

(** The zero value Go yields when a map is indexed at a missing key. *)
Definition sandboxData_zero : sandboxData :=
  {| sandbox := None; refCnt := 0 |}.

(** A [*network].  The fields are those [NewNetwork] fills in; none of them
    is reassigned in this file, so a pointer is modelled by the record it
    points to together with [net_addr], the address of the allocation, which
    tells two objects with equal fields apart.  The back reference [ctrlr]
    always points to the one controller modelled here.  The source's field
    names carry the prefix [net_], [id] being the identity function here. *)
Record network : Type := mkNetwork {
  net_name : string;
  net_id : UUID;
  net_driver : D;
  net_endpoints : gmap UUID Endpoint;
  net_addr : nat;
}.

(** [type controller struct { networks; drivers; sandboxes; sync.Mutex }];
    the mutex has no state between two calls of a sequential run. *)
Record controller : Type := mkController {
  networks : gmap UUID network;
  drivers : gmap string D;
  sandboxes : gmap string sandboxData;
}.

(** Calls made to a collaborator, in the order they are made. *)
Inductive event : Type :=
  | EvConfig (d : D) (options : Options)
  | EvCreateNetwork (d : D) (nid : UUID) (options : Options)
  | EvNewSandbox (key : string)
  | EvDestroy (sb : Sandbox).

(** The program state one controller method runs in: the receiver, the part
    of the Go heap the methods allocate in (network objects, and the backing
    arrays of the slices [Networks] makes, addressed by position), the
    environment of the collaborators and the log of the calls made to
    them. *)
Record state : Type := mkState {
  ctrl : controller;
  heap_next : nat;
  slices : list (list network);
  env : Env;
  calls : list event;
}.

Definition set_networks (f : gmap UUID network → gmap UUID network)
    (st : state) : state :=
  {| ctrl := {| networks := f (networks (ctrl st));
                drivers := drivers (ctrl st);
                sandboxes := sandboxes (ctrl st) |};
     heap_next := heap_next st; slices := slices st;
     env := env st; calls := calls st |}.

Definition set_sandboxes
    (f : gmap string sandboxData → gmap string sandboxData)
    (st : state) : state :=
  {| ctrl := {| networks := networks (ctrl st);
                drivers := drivers (ctrl st);
                sandboxes := f (sandboxes (ctrl st)) |};
     heap_next := heap_next st; slices := slices st;
     env := env st; calls := calls st |}.

Definition set_env (e : Env) (st : state) : state :=
  {| ctrl := ctrl st; heap_next := heap_next st; slices := slices st;
     env := e; calls := calls st |}.

Definition log_call (ev : event) (st : state) : state :=
  {| ctrl := ctrl st; heap_next := heap_next st; slices := slices st;
     env := env st; calls := calls st ++ [ev] |}.

Definition alloc_network (st : state) : nat * state :=
  (heap_next st,
   {| ctrl := ctrl st; heap_next := S (heap_next st); slices := slices st;
      env := env st; calls := calls st |}).

Definition alloc_slice (l : list network) (st : state) : nat * state :=
  (length (slices st),
   {| ctrl := ctrl st; heap_next := heap_next st;
      slices := slices st ++ [l];
      env := env st; calls := calls st |}).

(** ** The sandbox table *)

(** [func (c *controller) sandboxAdd(key string) (sandbox.Sandbox, error)].
    The table holds [sandboxData] by value: [sData] is a copy, and the
    increment on the last but one line changes the copy only. *)
Definition sandboxAdd (key : string) (st : state)
    : (option Sandbox * option error) * state :=
  match sandboxes (ctrl st) !! key with
  | None =>
      let '((sb, err), e) := NewSandbox key (env st) in
      let st := log_call (EvNewSandbox key) (set_env e st) in
      match err with
      | Some er => ((None, Some er), st)
      | None =>
          let sData := {| sandbox := sb; refCnt := 1 |} in
          ((sandbox sData, None), set_sandboxes (insert key sData) st)
      end
  | Some sData =>
      let sData := {| sandbox := sandbox sData;
                      refCnt := int_incr (refCnt sData) |} in
      ((sandbox sData, None), st)
  end.

(** How a method without results ends: it returns, or it panics (here: a
    method call on a nil interface value). *)
Inductive completion : Type := Returned | Panicked.

(** [func (c *controller) sandboxRm(key string)] *)
Definition sandboxRm (key : string) (st : state) : completion * state :=
  let sData := default sandboxData_zero (sandboxes (ctrl st) !! key) in
  let sData := {| sandbox := sandbox sData;
                  refCnt := int_decr (refCnt sData) |} in
  if decide (refCnt sData = 0) then
    match sandbox sData with
    | None => (Panicked, st)
    | Some sb =>
        let st := log_call (EvDestroy sb) (set_env (Destroy sb (env st)) st) in
        (Returned, set_sandboxes (delete key) st)
    end
  else (Returned, st).

(** [func (c *controller) sandboxGet(key string) sandbox.Sandbox] *)
Definition sandboxGet (key : string) (st : state) : option Sandbox :=
  match sandboxes (ctrl st) !! key with
  | None => None
  | Some sData => sandbox sData
  end.

(** ** Networks and drivers *)

(** [func New() NetworkController].  [enumerateDrivers()] is declared outside
    [controller.go]; the table it returns is a parameter. *)
Definition New (enumerateDrivers : gmap string D) (e : Env) : state :=
  {| ctrl := {| networks := ∅; drivers := enumerateDrivers; sandboxes := ∅ |};
     heap_next := 0%nat; slices := []; env := e; calls := [] |}.

(** [func (c *controller) ConfigureNetworkDriver(networkType string,
    options interface{}) error] *)
Definition ConfigureNetworkDriver (networkType : string) (options : Options)
    (st : state) : option error * state :=
  match drivers (ctrl st) !! networkType with
  | None => (Some (NetworkTypeError networkType), st)
  | Some d =>
      let '(err, e) := Config d options (env st) in
      (err, log_call (EvConfig d options) (set_env e st))
  end.

(** The loop [for _, n := range c.networks { if n.name == name {...} }] over
    the entries in the order the runtime yields them: does it hit a network
    of that name? *)
Fixpoint name_in_use (name : string) (entries : list (UUID * network)) : bool :=
  match entries with
  | [] => false
  | (_, n) :: entries =>
      if decide (net_name n = name) then true else name_in_use name entries
  end.

(** [func (c *controller) NewNetwork(networkType, name string,
    options interface{}) (Network, error)] *)
Definition NewNetwork (networkType name : string) (options : Options)
    (st : state) : (option network * option error) * state :=
  match drivers (ctrl st) !! networkType with
  | None => ((None, Some ErrInvalidNetworkDriver), st)
  | Some d =>
      let '(entries, e) := map_range (networks (ctrl st)) (env st) in
      let st := set_env e st in
      if name_in_use name entries then
        ((None, Some (NetworkNameError name)), st)
      else
        let '(rid, e) := GenerateRandomID (env st) in
        let st := set_env e st in
        let '(a, st) := alloc_network st in
        let network := {| net_name := name; net_id := rid; net_driver := d;
                          net_endpoints := ∅; net_addr := a |} in
        let '(err, e) := CreateNetwork d (net_id network) options (env st) in
        let st := log_call (EvCreateNetwork d (net_id network) options)
                    (set_env e st) in
        match err with
        | Some er => ((None, Some er), st)
        | None =>
            ((Some network, None),
             set_networks (insert (net_id network) network) st)
        end
  end.

(** [func (c *controller) Networks() []Network]: the slice is made by the
    call and filled in the order of the [range]; the result is the slice's
    position in [slices]. *)
Definition Networks (st : state) : nat * state :=
  let '(entries, e) := map_range (networks (ctrl st)) (env st) in
  let list := snd <$> entries in
  alloc_slice list (set_env e st).

(** The loop of [WalkNetworks].  A [NetworkWalker] is a closure: [W] is the
    state it captures, which it may update; it does not call back into the
    controller. *)
Fixpoint walk {W : Type} (walker : network → W → bool * W)
    (list : list network) (w : W) : W :=
  match list with
  | [] => w
  | n :: list =>
      let '(stop, w) := walker n w in
      if stop then w else walk walker list w
  end.

(** [func (c *controller) WalkNetworks(walker NetworkWalker)] *)
Definition WalkNetworks {W : Type} (walker : network → W → bool * W)
    (st : state) (w : W) : state * W :=
  let '(ref, st) := Networks st in
  (st, walk walker (default [] (slices st !! ref)) w).

(** [func (c *controller) NetworkByName(name string) Network]; the closure
    [s] captures the variable [n]. *)
Definition NetworkByName (name : string) (st : state)
    : option network * state :=
  if decide (name ≠ "") then
    let s := λ (current : network) (n : option network),
      if decide (net_name current = name) then (true, Some current)
      else (false, n) in
    let '(st, n) := WalkNetworks s st None in
    (n, st)
  else (None, st).

(** [func (c *controller) NetworkByID(id string) Network] *)
Definition NetworkByID (id : string) (st : state) : option network :=
  match networks (ctrl st) !! id with
  | Some n => Some n
  | None => None
  end.

(** ** Runs of the controller *)

(** [N] calls of [sandboxAdd key] in a row, with what each of them
    returned. *)
Fixpoint sandboxAdd_times (N : nat) (key : string) (st : state)
    : list (option Sandbox * option error) * state :=
  match N with
  | O => ([], st)
  | S N =>
      let '(r, st) := sandboxAdd key st in
      let '(rs, st) := sandboxAdd_times N key st in
      (r :: rs, st)
  end.

(** [N] calls of [sandboxRm key] in a row. *)
Fixpoint sandboxRm_times (N : nat) (key : string) (st : state)
    : list completion * state :=
  match N with
  | O => ([], st)
  | S N =>
      let '(r, st) := sandboxRm key st in
      let '(rs, st) := sandboxRm_times N key st in
      (r :: rs, st)
  end.

(** A walker that also records the networks it is called on. *)
Definition traced {W : Type} (walker : network → W → bool * W)
    : network → W * list network → bool * (W * list network) :=
  λ n '(w, seen),
    let '(stop, w) := walker n w in (stop, (w, seen ++ [n])).

(** What the slice made by [Networks] in state [st] holds. *)
Definition snapshot (st : state) : list network :=
  snd <$> (map_range (networks (ctrl st)) (env st)).1.

(** One call of a method of the controller by a client. *)
Inductive call : Type :=
  | CallConfigureNetworkDriver (networkType : string) (options : Options)
  | CallNewNetwork (networkType name : string) (options : Options)
  | CallNetworks
  | CallWalkNetworks (W : Type) (walker : network → W → bool * W) (w : W)
  | CallNetworkByName (name : string)
  | CallNetworkByID (id : string)
  | CallSandboxAdd (key : string)
  | CallSandboxRm (key : string)
  | CallSandboxGet (key : string).

(** The state a call leaves. *)
Definition exec (c : call) (st : state) : state :=
  match c with
  | CallConfigureNetworkDriver t o => (ConfigureNetworkDriver t o st).2
  | CallNewNetwork t n o => (NewNetwork t n o st).2
  | CallNetworks => (Networks st).2
  | CallWalkNetworks _ walker w => (WalkNetworks walker st w).1
  | CallNetworkByName n => (NetworkByName n st).2
  | CallNetworkByID _ => st
  | CallSandboxAdd k => (sandboxAdd k st).2
  | CallSandboxRm k => (sandboxRm k st).2
  | CallSandboxGet _ => st
  end.

(** The network a call hands to its caller, when it is a [NewNetwork] that
    succeeds. *)
Definition created (c : call) (st : state) : option network :=
  match c with
  | CallNewNetwork t n o => (NewNetwork t n o st).1.1
  | _ => None
  end.

(** A sequence of calls: the networks [NewNetwork] returned, oldest first, and
    the final state. *)
Fixpoint run (cs : list call) (st : state) : list network * state :=
  match cs with
  | [] => ([], st)
  | c :: cs =>
      let '(h, st') := run cs (exec c st) in
      (option_list (created c st) ++ h, st')
  end.

(** The table after the networks of [h] were stored one after the other. *)
Definition store_all (h : list network) (m : gmap UUID network)
    : gmap UUID network :=
  foldl (λ m n, <[net_id n := n]> m) m h.

(** ** Invariants and measures *)

(** No two entries of the network table have the same name. *)
Definition names_unique (m : gmap UUID network) : Prop :=
  ∀ k1 k2 n1 n2,
    m !! k1 = Some n1 → m !! k2 = Some n2 →
    net_name n1 = net_name n2 → k1 = k2.

(** Every network is stored under its own identifier. *)
Definition keyed_by_id (m : gmap UUID network) : Prop :=
  ∀ k n, m !! k = Some n → net_id n = k.

(** Every entry of the sandbox table has the reference count 1. *)
Definition counts_one (m : gmap string sandboxData) : Prop :=
  ∀ k sData, m !! k = Some sData → refCnt sData = 1.

Definition is_NewSandbox (ev : event) : bool :=
  match ev with EvNewSandbox _ => true | _ => false end.

Definition is_Destroy (ev : event) : bool :=
  match ev with EvDestroy _ => true | _ => false end.

(** How many calls of the log satisfy [p]. *)
Fixpoint count_calls (p : event → bool) (l : list event) : nat :=
  match l with
  | [] => O
  | ev :: l => ((if p ev then 1 else 0) + count_calls p l)%nat
  end.

(** The closure [s] of [NetworkByName]. *)
Definition by_name (name : string)
    : network → option network → bool * option network :=
  λ current n,
    if decide (net_name current = name) then (true, Some current)
    else (false, n).

(** A walker that decides by the network alone and keeps no state. *)
Definition stateless (p : network → bool) : network → unit → bool * unit :=
  λ n w, (p n, w).

(** The networks a walk over [l] reaches when it stops at the first one on
    which [p] holds. *)
Fixpoint up_to_first (p : network → bool) (l : list network) : list network :=
  match l with
  | [] => []
  | n :: l => if p n then [n] else n :: up_to_first p l
  end.


End controller.

(** ** Concrete collaborators

    A small world to run the model in.  A driver is known by its name, and the
    one called "broken" fails every call; a sandbox is known by the name of
    its namespace; the environment counts the calls that reached it, and the
    identifier generator derives its answer from that count. *)
Module Scenario.

#[global] Instance driver : Driver string unit nat := {|
  Config d _ e :=
    (if decide (d = "broken") then Some (ErrOpaque "config failed") else None,
     S e);
  CreateNetwork d _ _ e :=
    (if decide (d = "broken") then Some (ErrOpaque "create failed") else None,
     S e);
|}.

#[global] Instance provider : SandboxProvider string nat := {|
  NewSandbox key e := ((Some ("ns-" +:+ key), None), S e);
  Destroy _ e := S e;
|}.

Fixpoint tally (n : nat) : string :=
  match n with
  | O => ""
  | S n => "i" +:+ tally n
  end.

#[global] Instance runtime : Runtime nat := {|
  GenerateRandomID e := ("id" +:+ tally e, S e);
  map_range _ m e := (map_to_list m, e);
  map_range_perm _ m _ := Permutation_refl (map_to_list m);
|}.

Definition registry : gmap string string :=
  {[ "null" := "null"; "broken" := "broken" ]}.

Abbreviation world :=
  (state (D := string) (Options := unit) (Sandbox := string)
     (Endpoint := unit) (Env := nat)).

(** The state [New()] returns. *)
Definition fresh : world := New registry O.

(** After one network "net1" was created. *)
Definition one_net : world :=
  (NewNetwork "null" "net1" () fresh).2.

(** After two networks "net1" and "net2" were created. *)
Definition two_nets : world :=
  (NewNetwork "null" "net2" () one_net).2.

End Scenario.

(** ** Collaborators that fail

    The drivers and the runtime of [Scenario] with another provider: a sandbox
    is a number; the provider refuses the key "bad" (returning a handle next
    to the error), answers nil without an error on the key "nil", and
    otherwise returns the count of the calls so far. *)
Module Faulty.

#[global] Instance provider : SandboxProvider nat nat := {|
  NewSandbox key e :=
    (if decide (key = "bad") then (Some 7%nat, Some (ErrOpaque "no namespace"))
     else if decide (key = "nil") then (None, None)
     else (Some e, None),
     S e);
  Destroy _ e := S e;
|}.

Abbreviation world :=
  (state (D := string) (Options := unit) (Sandbox := nat)
     (Endpoint := unit) (Env := nat)).

(** The state [New()] returns. *)
Definition fresh : world := New Scenario.registry O.

End Faulty.

(** ** Sample values *)
Module Samples.

(** The network the first [NewNetwork "null" "net1"] of a new controller
    returns. *)
Definition net1 : network (D := string) (Endpoint := unit) :=
  {| net_name := "net1"; net_id := "id"; net_driver := "null";
     net_endpoints := ∅; net_addr := 0 |}.

(** The same with an empty name. *)
Definition unnamed : network (D := string) (Endpoint := unit) :=
  {| net_name := ""; net_id := "id"; net_driver := "null";
     net_endpoints := ∅; net_addr := 0 |}.

(** A state whose sandbox table has an entry with the count 2, as no run of
    the controller leaves one. *)
Definition two_refs : Scenario.world :=
  set_sandboxes (insert "c1" {| sandbox := Some "ns-c1"; refCnt := 2 |})
    Scenario.fresh.

End Samples.

(** ** Properties *)

Section properties.
Context {D Options Sandbox Endpoint Env : Type}.
Context `{!Driver D Options Env, !SandboxProvider Sandbox Env, !Runtime Env}.

Local Abbreviation state :=
  (state (D := D) (Options := Options) (Sandbox := Sandbox)
     (Endpoint := Endpoint) (Env := Env)).
Local Abbreviation network := (network (D := D) (Endpoint := Endpoint)).
Local Abbreviation sandboxData := (sandboxData (Sandbox := Sandbox)).

Implicit Types (st : state) (n : network) (sData : sandboxData).
Implicit Types (key name networkType nid : string) (options : Options).

(** *** Integers *)

Lemma int_decr_zero : int_decr 0 = -1.
Proof. reflexivity. Qed.

Lemma int_decr_one : int_decr 1 = 0.
Proof. reflexivity. Qed.

(** *** The sandbox table *)

(** An existing entry: [sandboxAdd] as an equation. *)
Lemma sandboxAdd_existing_entry_eq st key sData :
  sandboxes (ctrl st) !! key = Some sData →
  sandboxAdd key st = ((sandbox sData, None), st).
Proof. intros Hkey. unfold sandboxAdd. by rewrite Hkey. Qed.

(** C3: when the table already has an entry for the key, [sandboxAdd] returns
    the stored sandbox and no error and leaves the whole state, the sandbox
    table included, as it was: the entry's reference count is the one it had,
    since the increment is made on a copy of the entry. *)
Theorem sandboxAdd_existing_entry st key sData :
  sandboxes (ctrl st) !! key = Some sData →
  sandboxAdd key st = ((sandbox sData, None), st) ∧
  sandboxes (ctrl (sandboxAdd key st).2) = sandboxes (ctrl st) ∧
  refCnt <$> sandboxes (ctrl (sandboxAdd key st).2) !! key
    = Some (refCnt sData).
Proof.
  intros Hkey.
  rewrite (sandboxAdd_existing_entry_eq _ _ _ Hkey). simpl. by rewrite Hkey.
Qed.

(** A missing entry: [sandboxRm] as an equation. *)
Lemma sandboxRm_missing_key_eq st key :
  sandboxes (ctrl st) !! key = None →
  sandboxRm key st = (Returned, st).
Proof.
  intros Hkey. unfold sandboxRm. rewrite Hkey.
  unfold sandboxData_zero. cbn [default refCnt].
  rewrite int_decr_zero. by case_decide.
Qed.

(** C6: on a key without an entry [sandboxRm] returns normally and changes
    nothing: the table is the one it was (no entry appears, none with a
    negative count, and no other key loses its entry), and no call reaches a
    sandbox. *)
Theorem sandboxRm_missing_key st key :
  sandboxes (ctrl st) !! key = None →
  sandboxRm key st = (Returned, st) ∧
  sandboxes (ctrl (sandboxRm key st).2) = sandboxes (ctrl st) ∧
  calls (sandboxRm key st).2 = calls st ∧
  env (sandboxRm key st).2 = env st.
Proof.
  intros Hkey.
  by rewrite (sandboxRm_missing_key_eq _ _ Hkey).
Qed.

(** *** Reference counts *)

(** Once the table has an entry for the key, any number of [sandboxAdd] calls
    hands out the stored sandbox and changes nothing. *)
Lemma sandboxAdd_times_existing N st key sData :
  sandboxes (ctrl st) !! key = Some sData →
  sandboxAdd_times N key st = (replicate N (sandbox sData, None), st).
Proof.
  intros Hkey. induction N as [|N IH]; [done|].
  simpl. rewrite (sandboxAdd_existing_entry_eq _ _ _ Hkey).
  by rewrite IH.
Qed.

(** The first [sandboxAdd] on a key without an entry, when the provider
    succeeds. *)
Lemma sandboxAdd_first st key sb e :
  sandboxes (ctrl st) !! key = None →
  NewSandbox key (env st) = ((sb, None), e) →
  sandboxAdd key st
    = ((sb, None),
       set_sandboxes (insert key {| sandbox := sb; refCnt := 1 |})
         (log_call (EvNewSandbox key) (set_env e st))).
Proof. intros Hkey Hnew. unfold sandboxAdd. by rewrite Hkey, Hnew. Qed.

(** [N] calls in a row, starting without an entry. *)
Lemma sandboxAdd_times_fresh N st key sb e :
  sandboxes (ctrl st) !! key = None →
  NewSandbox key (env st) = ((sb, None), e) →
  sandboxAdd_times (S N) key st
    = (replicate (S N) (sb, None),
       set_sandboxes (insert key {| sandbox := sb; refCnt := 1 |})
         (log_call (EvNewSandbox key) (set_env e st))).
Proof.
  intros Hkey Hnew. simpl. rewrite (sandboxAdd_first _ _ _ _ Hkey Hnew).
  rewrite (sandboxAdd_times_existing N _ key {| sandbox := sb; refCnt := 1 |});
    [done|].
  simpl. by rewrite lookup_insert_eq.
Qed.

(** C1: starting without an entry for the key and with a provider that
    succeeds, [N] calls of [sandboxAdd], [N] at least 1, make one call to the
    provider and all return the sandbox it made; the entry they leave has
    the reference count 1, whatever [N] is. *)
Theorem sandboxAdd_times_refCnt N st key sb e :
  (1 ≤ N)%nat →
  sandboxes (ctrl st) !! key = None →
  NewSandbox key (env st) = ((sb, None), e) →
  (sandboxAdd_times N key st).1 = replicate N (sb, None) ∧
  calls (sandboxAdd_times N key st).2 = calls st ++ [EvNewSandbox key] ∧
  sandboxes (ctrl (sandboxAdd_times N key st).2) !! key
    = Some {| sandbox := sb; refCnt := 1 |}.
Proof.
  intros HN Hkey Hnew. destruct N as [|N]; [lia|].
  rewrite (sandboxAdd_times_fresh _ _ _ _ _ Hkey Hnew).
  split_and!; [done..|]. simpl. by rewrite lookup_insert_eq.
Qed.

(** [sandboxRm] on a key without an entry, any number of times. *)
Lemma sandboxRm_times_missing M st key :
  sandboxes (ctrl st) !! key = None →
  sandboxRm_times M key st = (replicate M Returned, st).
Proof.
  intros Hkey. induction M as [|M IH]; [done|].
  simpl. rewrite (sandboxRm_missing_key_eq _ _ Hkey). by rewrite IH.
Qed.

(** C2: after [N] calls of [sandboxAdd], [N] at least 1, that started without
    an entry and got a sandbox from the provider, the first [sandboxRm]
    already destroys that sandbox and removes the entry; the calls of
    [sandboxRm] after it change nothing. *)
Theorem sandboxRm_after_adds N M st key sb e :
  (1 ≤ N)%nat →
  sandboxes (ctrl st) !! key = None →
  NewSandbox key (env st) = ((Some sb, None), e) →
  let st1 := (sandboxAdd_times N key st).2 in
  let st2 := (sandboxRm key st1).2 in
  (sandboxRm key st1).1 = Returned ∧
  calls st2 = calls st1 ++ [EvDestroy sb] ∧
  sandboxes (ctrl st2) !! key = None ∧
  sandboxRm_times M key st2 = (replicate M Returned, st2).
Proof.
  intros HN Hkey Hnew st1 st2. destruct N as [|N]; [lia|].
  assert (sandboxes (ctrl st2) !! key = None) as Hgone.
  { subst st2 st1. rewrite (sandboxAdd_times_fresh _ _ _ _ _ Hkey Hnew).
    unfold sandboxRm. simpl. rewrite lookup_insert_eq. simpl.
    by rewrite lookup_delete_eq. }
  split_and!; [..|done|by apply sandboxRm_times_missing].
  - subst st1. rewrite (sandboxAdd_times_fresh _ _ _ _ _ Hkey Hnew).
    unfold sandboxRm. simpl. by rewrite lookup_insert_eq.
  - subst st2 st1. rewrite (sandboxAdd_times_fresh _ _ _ _ _ Hkey Hnew).
    unfold sandboxRm. simpl. by rewrite lookup_insert_eq.
Qed.


(** *** Drivers *)

(** C10: for a type without a driver [ConfigureNetworkDriver] fails with
    [NetworkTypeError] and the state stays as it was (no driver is called);
    for a registered type it makes one call, [Config] of that driver with
    the options it was given, and returns the very result of that call,
    [None] when the driver succeeds. *)
Theorem ConfigureNetworkDriver_spec st networkType options :
  match drivers (ctrl st) !! networkType with
  | None =>
      ConfigureNetworkDriver networkType options st
        = (Some (NetworkTypeError networkType), st)
  | Some d =>
      (ConfigureNetworkDriver networkType options st).1
        = (Config d options (env st)).1 ∧
      env (ConfigureNetworkDriver networkType options st).2
        = (Config d options (env st)).2 ∧
      calls (ConfigureNetworkDriver networkType options st).2
        = calls st ++ [EvConfig d options] ∧
      ctrl (ConfigureNetworkDriver networkType options st).2 = ctrl st
  end.
Proof.
  unfold ConfigureNetworkDriver.
  destruct (drivers (ctrl st) !! networkType) as [d|]; [|done].
  by destruct (Config d options (env st)) as [err e].
Qed.

(** *** Creating networks *)

Lemma name_in_use_true name (entries : list (UUID * network)) :
  name_in_use name entries = true ↔ ∃ kv, kv ∈ entries ∧ net_name kv.2 = name.
Proof.
  induction entries as [|[k n] entries IH]; simpl.
  - split; [done|]. intros (kv & Hin & _). by apply elem_of_nil in Hin.
  - case_decide as Hn.
    + split; [|done]. intros _. exists (k, n). split; [left|done].
    + rewrite IH. split.
      * intros (kv & Hin & Hkv). exists kv. split; [by right|done].
      * intros (kv & Hin & Hkv). apply elem_of_cons in Hin as [->|Hin]; [done|].
        by exists kv.
Qed.

(** The scan of [NewNetwork] finds the name exactly when a network of the
    table has it, whatever the order of the [range]. *)
Lemma name_in_use_range name st :
  name_in_use name (map_range (networks (ctrl st)) (env st)).1 = true
  ↔ ∃ nid n, networks (ctrl st) !! nid = Some n ∧ net_name n = name.
Proof.
  rewrite name_in_use_true. split.
  - intros ([k n] & Hin & Hname). exists k, n. split; [|done].
    rewrite map_range_perm in Hin. by apply elem_of_map_to_list in Hin.
  - intros (k & n & Hk & Hname). exists (k, n). split; [|done].
    rewrite map_range_perm. by apply elem_of_map_to_list.
Qed.

(** C4: when a registered network has the name, [NewNetwork] with a
    registered driver type fails with [NetworkNameError] of that name and
    returns no network; the log of calls is the one before (the driver's
    [CreateNetwork] is not called) and the controller, its network table
    included, is unchanged. *)
Theorem NewNetwork_duplicate_name st networkType name options d nid n :
  drivers (ctrl st) !! networkType = Some d →
  networks (ctrl st) !! nid = Some n →
  net_name n = name →
  (NewNetwork networkType name options st).1
    = (None, Some (NetworkNameError name)) ∧
  calls (NewNetwork networkType name options st).2 = calls st ∧
  networks (ctrl (NewNetwork networkType name options st).2)
    = networks (ctrl st) ∧
  ctrl (NewNetwork networkType name options st).2 = ctrl st.
Proof.
  intros Hd Hn Hname.
  assert (name_in_use name (map_range (networks (ctrl st)) (env st)).1 = true)
    as Huse by (apply name_in_use_range; eauto).
  unfold NewNetwork. rewrite Hd.
  destruct (map_range (networks (ctrl st)) (env st)) as [entries e].
  simpl in Huse. by rewrite Huse.
Qed.

(** C5: when the call reaches the driver (the type is registered, no
    registered network has the name) and [CreateNetwork], called with the
    generated identifier and the options, returns an error, [NewNetwork]
    returns that error and no network, and the network table is the one
    before the call. *)
Theorem NewNetwork_driver_error st networkType name options d er :
  let r := map_range (networks (ctrl st)) (env st) in
  let g := GenerateRandomID r.2 in
  drivers (ctrl st) !! networkType = Some d →
  (∀ nid n, networks (ctrl st) !! nid = Some n → net_name n ≠ name) →
  (CreateNetwork d g.1 options g.2).1 = Some er →
  (NewNetwork networkType name options st).1 = (None, Some er) ∧
  networks (ctrl (NewNetwork networkType name options st).2)
    = networks (ctrl st) ∧
  calls (NewNetwork networkType name options st).2
    = calls st ++ [EvCreateNetwork d g.1 options].
Proof.
  intros r g Hd Hfree Herr.
  assert (name_in_use name r.1 = false) as Huse.
  { apply not_true_is_false. intros (k & n & Hk & Hn)%name_in_use_range.
    by eapply Hfree. }
  unfold NewNetwork. rewrite Hd. subst g r.
  destruct (map_range (networks (ctrl st)) (env st)) as [entries e].
  simpl in *. rewrite Huse.
  destruct (GenerateRandomID e) as [rid e']. simpl in *.
  destruct (CreateNetwork d rid options e') as [err e'']. simpl in *.
  by subst err.
Qed.


(** *** Looking networks up *)

Lemma store_all_app (h1 h2 : list network) (m : gmap UUID network) :
  store_all (h1 ++ h2) m = store_all h2 (store_all h1 m).
Proof. apply foldl_app. Qed.

Lemma store_all_lookup_notin (h : list network) (m : gmap UUID network) id :
  id ∉ net_id <$> h → store_all h m !! id = m !! id.
Proof.
  revert m. induction h as [|n h IH]; intros m Hid; [done|].
  rewrite fmap_cons, not_elem_of_cons in Hid. destruct Hid as [Hne Hid].
  change (store_all (n :: h) m) with (store_all h (<[net_id n := n]> m)).
  rewrite IH by done. by rewrite lookup_insert_ne.
Qed.

Lemma store_all_lookup_last (h1 h2 : list network) n (m : gmap UUID network) :
  net_id n ∉ net_id <$> h2 →
  store_all (h1 ++ n :: h2) m !! net_id n = Some n.
Proof.
  intros Hlater. rewrite store_all_app.
  change (store_all (n :: h2) ?m') with (store_all h2 (<[net_id n := n]> m')).
  rewrite store_all_lookup_notin by done. apply lookup_insert_eq.
Qed.

(** [Networks] changes neither the controller nor the log. *)
Lemma Networks_ctrl st : ctrl (Networks st).2 = ctrl st.
Proof.
  unfold Networks.
  by destruct (map_range (networks (ctrl st)) (env st)) as [entries e].
Qed.

Lemma Networks_eq st :
  Networks st
  = alloc_slice (snapshot st)
      (set_env (map_range (networks (ctrl st)) (env st)).2 st).
Proof.
  unfold Networks, snapshot.
  by destruct (map_range (networks (ctrl st)) (env st)) as [entries e].
Qed.

Lemma WalkNetworks_eq {W : Type} (walker : network → W → bool * W) st w :
  WalkNetworks walker st w = ((Networks st).2, walk walker (snapshot st) w).
Proof.
  unfold WalkNetworks. rewrite Networks_eq. unfold alloc_slice. simpl.
  by rewrite list_lookup_middle.
Qed.

(** What a call does to the network table: it stores the network it returns,
    if any. *)
Lemma exec_networks (c : call) st :
  networks (ctrl (exec c st))
  = store_all (option_list (created c st)) (networks (ctrl st)).
Proof.
  destruct c as [t o|t nm o| |W walker w|nm|id|k|k|k]; simpl; try done.
  - unfold ConfigureNetworkDriver.
    destruct (drivers (ctrl st) !! t) as [d|]; [|done].
    by destruct (Config d o (env st)) as [err e].
  - unfold NewNetwork.
    destruct (drivers (ctrl st) !! t) as [d|]; [|done].
    destruct (map_range (networks (ctrl st)) (env st)) as [entries e].
    destruct (name_in_use nm entries); [done|]. simpl.
    destruct (GenerateRandomID e) as [rid e']. simpl.
    destruct (CreateNetwork d rid o e') as [[er|] e'']; done.
  - by rewrite Networks_ctrl.
  - by rewrite WalkNetworks_eq; simpl; rewrite Networks_ctrl.
  - unfold NetworkByName. case_decide; [|done].
    rewrite WalkNetworks_eq. simpl. by rewrite Networks_ctrl.
  - unfold sandboxAdd.
    destruct (sandboxes (ctrl st) !! k) as [sData|]; [done|].
    by destruct (NewSandbox k (env st)) as [[sb [er|]] e].
  - unfold sandboxRm. case_decide; [|done].
    by destruct (sandbox _).
Qed.

(** The network table after a run is the initial one with the networks the
    run returned stored in that order. *)
Lemma run_networks (cs : list call) st :
  networks (ctrl (run cs st).2) = store_all (run cs st).1 (networks (ctrl st)).
Proof.
  revert st. induction cs as [|c cs IH]; intros st; [done|].
  simpl. specialize (IH (exec c st)).
  destruct (run cs (exec c st)) as [h st']. simpl in *.
  by rewrite IH, exec_networks, store_all_app.
Qed.

Lemma NetworkByID_lookup id st : NetworkByID id st = networks (ctrl st) !! id.
Proof. unfold NetworkByID. by destruct (networks (ctrl st) !! id). Qed.

(** C7: after any sequence of calls on a new controller, [NetworkByID] returns
    nil for every identifier that is not the one of a network [NewNetwork]
    returned, and for a network [NewNetwork] returned whose entry was not
    replaced since (no network returned later has its identifier) it returns
    that very network. *)
Theorem NetworkByID_run (enumerateDrivers : gmap string D) (e : Env)
    (cs : list call) :
  let h := (run cs (New enumerateDrivers e)).1 in
  let st : state := (run cs (New enumerateDrivers e)).2 in
  (∀ id, id ∉ net_id <$> h → NetworkByID id st = None) ∧
  (∀ h1 n h2, h = h1 ++ n :: h2 → net_id n ∉ net_id <$> h2 →
     NetworkByID (net_id n) st = Some n).
Proof.
  intros h st. split.
  - intros id Hid. rewrite NetworkByID_lookup. subst st.
    rewrite run_networks. by rewrite store_all_lookup_notin.
  - intros h1 n h2 Hh Hlater. rewrite NetworkByID_lookup. subst st.
    rewrite run_networks. fold h. rewrite Hh.
    by apply store_all_lookup_last.
Qed.


(** *** Snapshots *)

Lemma snapshot_perm st :
  snapshot st ≡ₚ (map_to_list (networks (ctrl st))).*2.
Proof. unfold snapshot. by rewrite map_range_perm. Qed.

Lemma snapshot_nonempty st : networks (ctrl st) ≠ ∅ → snapshot st ≠ [].
Proof.
  intros Hne Hnil. apply Hne, map_to_list_empty_iff.
  pose proof (snapshot_perm st) as Hperm. rewrite Hnil in Hperm.
  apply Permutation_nil_l in Hperm. symmetry in Hperm.
  by apply fmap_nil_inv in Hperm.
Qed.

(** A call keeps the slices made so far as they are; it may make one more. *)
Lemma exec_slices (c : call) st : slices st `prefix_of` slices (exec c st).
Proof.
  assert (slices st `prefix_of` slices (Networks st).2) as HN.
  { rewrite Networks_eq. by apply prefix_app_r. }
  destruct c as [t o|t nm o| |W walker w|nm|id|k|k|k]; simpl; try done.
  - unfold ConfigureNetworkDriver.
    destruct (drivers (ctrl st) !! t) as [d|]; [|done].
    by destruct (Config d o (env st)) as [err e].
  - unfold NewNetwork.
    destruct (drivers (ctrl st) !! t) as [d|]; [|done].
    destruct (map_range (networks (ctrl st)) (env st)) as [entries e].
    destruct (name_in_use nm entries); [done|]. simpl.
    destruct (GenerateRandomID e) as [rid e']. simpl.
    destruct (CreateNetwork d rid o e') as [[er|] e'']; done.
  - by rewrite WalkNetworks_eq.
  - unfold NetworkByName. case_decide; [|done]. by rewrite WalkNetworks_eq.
  - unfold sandboxAdd.
    destruct (sandboxes (ctrl st) !! k) as [sData|]; [done|].
    by destruct (NewSandbox k (env st)) as [[sb [er|]] e].
  - unfold sandboxRm. case_decide; [|done].
    by destruct (sandbox _).
Qed.

Lemma run_slices (cs : list call) st :
  slices st `prefix_of` slices (run cs st).2.
Proof.
  revert st. induction cs as [|c cs IH]; intros st; [done|].
  simpl. specialize (IH (exec c st)).
  destruct (run cs (exec c st)) as [h st']. simpl in *.
  etrans; [apply exec_slices|done].
Qed.

(** C8: the slice [Networks] returns holds the networks of the table at the
    time of the call, each once, and whatever calls follow (they may change
    the table) the slice still holds the same list. *)
Theorem Networks_snapshot st (cs : list call) :
  let ref := (Networks st).1 in
  let st1 := (Networks st).2 in
  slices st1 !! ref = Some (snapshot st) ∧
  snapshot st ≡ₚ (map_to_list (networks (ctrl st))).*2 ∧
  slices (run cs st1).2 !! ref = Some (snapshot st).
Proof.
  intros ref st1.
  assert (slices st1 !! ref = Some (snapshot st)) as Hnow.
  { subst ref st1. rewrite Networks_eq. unfold alloc_slice. simpl.
    by rewrite list_lookup_middle. }
  split_and!; [done|apply snapshot_perm|].
  by eapply prefix_lookup_Some; [|apply run_slices].
Qed.

(** *** Walking *)

(** The recording walker steers the walk as the walker it wraps. *)
Lemma walk_traced_fst {W : Type} (walker : network → W → bool * W)
    (l seen : list network) (w : W) :
  (walk (traced walker) l (w, seen)).1 = walk walker l w.
Proof.
  revert w seen. induction l as [|n l IH]; intros w seen; [done|].
  simpl. destruct (walker n w) as [[] w']; [done|]. apply IH.
Qed.

Lemma walk_traced_stop {W : Type} (walker : network → W → bool * W)
    (l seen : list network) (w : W) :
  (∀ n w, (walker n w).1 = true) →
  (walk (traced walker) l (w, seen)).2 = seen ++ take 1 l.
Proof.
  intros Hstop. destruct l as [|n l]; simpl; [by rewrite app_nil_r|].
  specialize (Hstop n w). by destruct (walker n w) as [[] w'].
Qed.

Lemma walk_traced_all {W : Type} (walker : network → W → bool * W)
    (l seen : list network) (w : W) :
  (∀ n w, (walker n w).1 = false) →
  (walk (traced walker) l (w, seen)).2 = seen ++ l.
Proof.
  intros Hgo. revert w seen.
  induction l as [|n l IH]; intros w seen; simpl; [by rewrite app_nil_r|].
  pose proof (Hgo n w) as Hn. destruct (walker n w) as [[] w']; [done|].
  rewrite IH. by rewrite <- app_assoc.
Qed.

(** C9: on a controller with at least one network, [WalkNetworks] calls a
    walker that always returns true on one network, the first of the
    snapshot, and a walker that always returns false on every network of the
    snapshot, in its order. *)
Theorem WalkNetworks_visits {W : Type} (walker : network → W → bool * W)
    st (w : W) :
  networks (ctrl st) ≠ ∅ →
  let visited := (WalkNetworks (traced walker) st (w, [])).2.2 in
  ((∀ n w, (walker n w).1 = true) →
     ∃ n, head (snapshot st) = Some n ∧ visited = [n]) ∧
  ((∀ n w, (walker n w).1 = false) → visited = snapshot st).
Proof.
  intros Hne visited. subst visited. rewrite WalkNetworks_eq. simpl.
  apply snapshot_nonempty in Hne. split.
  - intros Hstop. rewrite walk_traced_stop by done.
    destruct (snapshot st) as [|n l]; [done|]. by exists n.
  - intros Hgo. by rewrite walk_traced_all.
Qed.


(** ** Further properties *)

Local Abbreviation event :=
  (event (D := D) (Options := Options) (Sandbox := Sandbox)).

(** *** [NewNetwork]: failure and success *)

(** [NewNetwork] returns a network and no error, or an error and no network;
    when it returns an error, whichever it is, both tables are the ones
    before the call. *)
Theorem NewNetwork_network_or_error st networkType name options :
  let r := NewNetwork networkType name options st in
  (∃ n, r.1 = (Some n, None)) ∨
  (∃ er, r.1 = (None, Some er) ∧
         networks (ctrl r.2) = networks (ctrl st) ∧
         sandboxes (ctrl r.2) = sandboxes (ctrl st)).
Proof.
  unfold NewNetwork.
  destruct (drivers (ctrl st) !! networkType) as [d|]; [|right; eauto].
  destruct (map_range (networks (ctrl st)) (env st)) as [entries e].
  destruct (name_in_use name entries); [right; eauto|]. simpl.
  destruct (GenerateRandomID e) as [rid e']. simpl.
  destruct (CreateNetwork d rid options e') as [[er|] e''];
    [right|left]; eauto.
Qed.

(** A call without a driver for the type fails with
    [ErrInvalidNetworkDriver] before anything else is looked at: also when
    the name is taken, and without a step of the runtime or of a driver. *)
Theorem NewNetwork_unknown_type st networkType name options :
  drivers (ctrl st) !! networkType = None →
  NewNetwork networkType name options st
    = ((None, Some ErrInvalidNetworkDriver), st).
Proof. intros Hd. unfold NewNetwork. by rewrite Hd. Qed.

(** The postcondition of a [NewNetwork] that returned a network. *)
Lemma NewNetwork_post st networkType name options n :
  let r := NewNetwork networkType name options st in
  r.1.1 = Some n →
  r.1.2 = None ∧
  net_name n = name ∧
  drivers (ctrl st) !! networkType = Some (net_driver n) ∧
  net_id n
    = (GenerateRandomID (map_range (networks (ctrl st)) (env st)).2).1 ∧
  net_endpoints n = ∅ ∧
  net_addr n = heap_next st ∧
  (∀ k n', networks (ctrl st) !! k = Some n' → net_name n' ≠ name) ∧
  calls r.2 = calls st ++ [EvCreateNetwork (net_driver n) (net_id n) options] ∧
  networks (ctrl r.2) = <[net_id n := n]> (networks (ctrl st)) ∧
  drivers (ctrl r.2) = drivers (ctrl st) ∧
  sandboxes (ctrl r.2) = sandboxes (ctrl st).
Proof.
  intros r. subst r.
  assert (∀ k n', name_in_use name
            (map_range (networks (ctrl st)) (env st)).1 = false →
          networks (ctrl st) !! k = Some n' → net_name n' ≠ name) as Hfree.
  { intros k n' Huse Hk Hname.
    assert (name_in_use name (map_range (networks (ctrl st)) (env st)).1
            = true) as Htrue by (apply name_in_use_range; eauto).
    congruence. }
  unfold NewNetwork.
  destruct (drivers (ctrl st) !! networkType) as [d|]; [|done].
  destruct (map_range (networks (ctrl st)) (env st)) as [entries e].
  simpl in Hfree.
  destruct (name_in_use name entries); [done|]. simpl.
  destruct (GenerateRandomID e) as [rid e']. simpl.
  destruct (CreateNetwork d rid options e') as [[er|] e'']; [done|].
  simpl. intros [= <-]. simpl. split_and!; try done.
  intros k n'. by apply Hfree.
Qed.

(** What a successful [NewNetwork] returned and did: the network has the name
    asked for, the driver registered for the type, the identifier the
    generator gave, no endpoint and a fresh address; the name was free; the
    driver's [CreateNetwork] was called once, with that identifier; and the
    table is the old one with the network stored under its identifier. *)
Theorem NewNetwork_success st networkType name options n :
  let r := NewNetwork networkType name options st in
  r.1.1 = Some n →
  r.1.2 = None ∧
  net_name n = name ∧
  drivers (ctrl st) !! networkType = Some (net_driver n) ∧
  net_id n
    = (GenerateRandomID (map_range (networks (ctrl st)) (env st)).2).1 ∧
  net_endpoints n = ∅ ∧
  net_addr n = heap_next st ∧
  (∀ k n', networks (ctrl st) !! k = Some n' → net_name n' ≠ name) ∧
  calls r.2 = calls st ++ [EvCreateNetwork (net_driver n) (net_id n) options] ∧
  networks (ctrl r.2) = <[net_id n := n]> (networks (ctrl st)) ∧
  drivers (ctrl r.2) = drivers (ctrl st) ∧
  sandboxes (ctrl r.2) = sandboxes (ctrl st).
Proof. apply NewNetwork_post. Qed.

(** The table after [h] was stored holds each network under its identifier,
    when the table before did. *)
Lemma keyed_by_id_insert (m : gmap UUID network) n :
  keyed_by_id m → keyed_by_id (<[net_id n := n]> m).
Proof.
  intros Hm k n' Hk. apply lookup_insert_Some in Hk as [[<- <-]|[_ Hk]]; [done|].
  by apply Hm.
Qed.

Lemma names_unique_insert (m : gmap UUID network) n :
  names_unique m →
  (∀ k n', m !! k = Some n' → net_name n' ≠ net_name n) →
  names_unique (<[net_id n := n]> m).
Proof.
  intros Hm Hfree k1 k2 n1 n2 H1 H2 Hname.
  apply lookup_insert_Some in H1 as [[<- <-]|[Hk1 H1]];
    apply lookup_insert_Some in H2 as [[<- <-]|[Hk2 H2]]; try done.
  - by destruct (Hfree _ _ H2).
  - by destruct (Hfree _ _ H1).
  - by eapply Hm.
Qed.


(** *** Looking a network up by name *)

Lemma elem_of_snapshot st n :
  n ∈ snapshot st ↔ ∃ k, networks (ctrl st) !! k = Some n.
Proof.
  rewrite snapshot_perm, list_elem_of_fmap. split.
  - intros ([k n'] & -> & Hin). exists k. by apply elem_of_map_to_list.
  - intros (k & Hk). exists (k, n). split; [done|].
    by apply elem_of_map_to_list.
Qed.

Lemma walk_by_name_miss name (l : list network) acc :
  (∀ c, c ∈ l → net_name c ≠ name) → walk (by_name name) l acc = acc.
Proof.
  induction l as [|c l IH]; intros Hmiss; [done|].
  simpl. unfold by_name at 1. case_decide as Hc.
  - destruct (Hmiss c); [left|done].
  - apply IH. intros c' Hc'. apply Hmiss. by right.
Qed.

Lemma walk_by_name_hit name (l : list network) acc :
  (∃ c, c ∈ l ∧ net_name c = name) →
  ∃ n, walk (by_name name) l acc = Some n ∧ n ∈ l ∧ net_name n = name.
Proof.
  induction l as [|c l IH]; intros (c' & Hin & Hname).
  - by apply elem_of_nil in Hin.
  - simpl. unfold by_name at 1. case_decide as Hc.
    + exists c. split_and!; [done|left|done].
    + apply elem_of_cons in Hin as [->|Hin]; [done|].
      destruct IH as (n & Hw & Hn & Hnn); [by exists c'|].
      exists n. split_and!; [done|by right|done].
Qed.

(** [NetworkByName] as a walk of the closure over the snapshot. *)
Lemma NetworkByName_eq name st :
  NetworkByName name st
  = if decide (name ≠ "") then
      (walk (by_name name) (snapshot st) None, (Networks st).2)
    else (None, st).
Proof.
  unfold NetworkByName. case_decide; [|done].
  by rewrite WalkNetworks_eq.
Qed.

(** When [NetworkByName] returns a network and when nil. *)
Lemma NetworkByName_cases name st :
  (∀ n, (NetworkByName name st).1 = Some n →
     name ≠ "" ∧ net_name n = name ∧
     ∃ k, networks (ctrl st) !! k = Some n) ∧
  ((NetworkByName name st).1 = None ↔
     name = "" ∨ ∀ k n, networks (ctrl st) !! k = Some n → net_name n ≠ name).
Proof.
  rewrite NetworkByName_eq.
  destruct (decide (name ≠ "")) as [Hname|Hname%dec_stable]; simpl.
  - destruct (decide (Exists (λ c, net_name c = name) (snapshot st)))
      as [Hex%Exists_exists|Hnone].
    + destruct (walk_by_name_hit name _ None Hex) as (n & Hw & Hn & Hnn).
      rewrite Hw. split.
      * intros n' [= <-]. split_and!; [done..|]. by apply elem_of_snapshot.
      * split; [done|]. intros [?|Hall]; [done|].
        apply elem_of_snapshot in Hn as [k Hk]. by destruct (Hall k n).
    + assert (∀ c, c ∈ snapshot st → net_name c ≠ name) as Hmiss.
      { intros c Hc Hcn. apply Hnone, Exists_exists. eauto. }
      rewrite (walk_by_name_miss _ _ _ Hmiss). split; [done|].
      split; [|done]. intros _. right. intros k n Hk.
      apply Hmiss, elem_of_snapshot. eauto.
  - split; [done|]. split; [by left|done].
Qed.

(** [NetworkByName] returns a network only if the name is not empty, and then
    one of the table with that name; it returns nil exactly when the name is
    empty or no network of the table has it (a network whose name is empty
    is not found). *)
Theorem NetworkByName_spec name st :
  (∀ n, (NetworkByName name st).1 = Some n →
     name ≠ "" ∧ net_name n = name ∧
     ∃ k, networks (ctrl st) !! k = Some n) ∧
  ((NetworkByName name st).1 = None ↔
     name = "" ∨ ∀ k n, networks (ctrl st) !! k = Some n → net_name n ≠ name).
Proof. apply NetworkByName_cases. Qed.

(** After a successful [NewNetwork]: the network is found under its
    identifier, the other identifiers give what they gave before, and the
    network is found under its name, unless the name is empty. *)
Theorem NewNetwork_then_lookup st networkType name options n :
  let st' := (NewNetwork networkType name options st).2 in
  (NewNetwork networkType name options st).1.1 = Some n →
  NetworkByID (net_id n) st' = Some n ∧
  (∀ id, id ≠ net_id n → NetworkByID id st' = NetworkByID id st) ∧
  (NetworkByName name st').1 = (if decide (name = "") then None else Some n).
Proof.
  intros st' Hok. subst st'.
  destruct (NewNetwork_post _ _ _ _ _ Hok)
    as (_ & Hname & _ & _ & _ & _ & Hfree & _ & Htable & _).
  rewrite !NetworkByID_lookup, Htable. split_and!.
  - apply lookup_insert_eq.
  - intros id Hid. rewrite !NetworkByID_lookup, Htable.
    by rewrite lookup_insert_ne.
  - rewrite NetworkByName_eq.
    destruct (decide (name = "")) as [->|Hne]; [done|].
    rewrite decide_True by done. simpl.
    destruct (walk_by_name_hit name
                (snapshot (NewNetwork networkType name options st).2) None)
      as (n' & Hw & Hn' & Hnn').
    { exists n. split; [|done]. apply elem_of_snapshot. exists (net_id n).
      rewrite Htable. apply lookup_insert_eq. }
    rewrite Hw. f_equal.
    apply elem_of_snapshot in Hn' as [k Hk]. rewrite Htable in Hk.
    apply lookup_insert_Some in Hk as [[_ ->]|[_ Hk]]; [done|].
    by destruct (Hfree _ _ Hk).
Qed.


(** *** What every run keeps *)

(** Unfolds the methods a call stands for, down to the branch taken. *)
Local Ltac by_method :=
  simpl;
  unfold NetworkByName, ConfigureNetworkDriver, NewNetwork, sandboxAdd,
    sandboxRm;
  rewrite ?WalkNetworks_eq, ?Networks_eq;
  unfold alloc_network, alloc_slice;
  repeat case_match; simpl in *; simplify_eq; try done.

Lemma created_NewNetwork (c : call) st n :
  created c st = Some n →
  ∃ networkType name options,
    c = CallNewNetwork networkType name options ∧
    (NewNetwork networkType name options st).1.1 = Some n.
Proof. destruct c; simpl; try done. eauto. Qed.

Lemma exec_names_unique (c : call) st :
  names_unique (networks (ctrl st)) →
  names_unique (networks (ctrl (exec c st))).
Proof.
  intros Hm. rewrite exec_networks.
  destruct (created c st) as [n|] eqn:Hc; [|done].
  apply created_NewNetwork in Hc as (t & nm & o & _ & Hok).
  destruct (NewNetwork_post _ _ _ _ _ Hok)
    as (_ & Hname & _ & _ & _ & _ & Hfree & _).
  apply names_unique_insert; [done|]. by rewrite Hname.
Qed.

Lemma exec_keyed_by_id (c : call) st :
  keyed_by_id (networks (ctrl st)) →
  keyed_by_id (networks (ctrl (exec c st))).
Proof.
  intros Hm. rewrite exec_networks.
  destruct (created c st) as [n|]; [|done]. by apply keyed_by_id_insert.
Qed.

Lemma exec_drivers (c : call) st :
  drivers (ctrl (exec c st)) = drivers (ctrl st).
Proof. destruct c; by_method. Qed.

(** An invariant of the states that every call keeps holds after a run. *)
Lemma run_invariant (P : state → Prop) (cs : list call) st :
  (∀ c st, P st → P (exec c st)) → P st → P (run cs st).2.
Proof.
  intros Hstep. revert st. induction cs as [|c cs IH]; intros st Hst; [done|].
  simpl. specialize (IH (exec c st) (Hstep _ _ Hst)).
  by destruct (run cs (exec c st)) as [h st'].
Qed.

Lemma names_unique_run_inv (enumerateDrivers : gmap string D) (e : Env)
    (cs : list call) :
  names_unique (networks (ctrl (run cs (New enumerateDrivers e : state)).2)).
Proof.
  apply (run_invariant (λ st, names_unique (networks (ctrl st)))).
  - apply exec_names_unique.
  - by intros k1 k2 n1 n2 H1.
Qed.

(** In every state a new controller reaches by calls that run one after the
    other, no two networks of the table have the same name: the names of the
    networks [Networks] returns are pairwise distinct. *)
Theorem names_unique_run (enumerateDrivers : gmap string D) (e : Env)
    (cs : list call) :
  NoDup (net_name <$> snapshot (run cs (New enumerateDrivers e : state)).2).
Proof.
  rewrite snapshot_perm, <- list_fmap_compose.
  apply NoDup_fmap_2_strong; [|apply NoDup_map_to_list].
  intros [k1 n1] [k2 n2] H1%elem_of_map_to_list H2%elem_of_map_to_list Hname.
  simpl in Hname.
  assert (k1 = k2) as -> by (by eapply names_unique_run_inv).
  congruence.
Qed.

Lemma keyed_by_id_run_inv (enumerateDrivers : gmap string D) (e : Env)
    (cs : list call) :
  keyed_by_id (networks (ctrl (run cs (New enumerateDrivers e : state)).2)).
Proof.
  apply (run_invariant (λ st, keyed_by_id (networks (ctrl st)))).
  - apply exec_keyed_by_id.
  - by intros k n Hk.
Qed.

(** In every state a new controller reaches, each network of the table is
    stored under its own identifier: [NetworkByID id] returns nil or a
    network whose identifier is [id]. *)
Theorem keyed_by_id_run (enumerateDrivers : gmap string D) (e : Env)
    (cs : list call) (id : string) :
  match NetworkByID id (run cs (New enumerateDrivers e : state)).2 with
  | Some n => net_id n = id
  | None => True
  end.
Proof.
  assert (keyed_by_id (networks (ctrl (run cs (New enumerateDrivers e : state)).2)))
    as Hkeyed.
  { apply (run_invariant (λ st, keyed_by_id (networks (ctrl st)))).
    - apply exec_keyed_by_id.
    - by intros k n Hk. }
  rewrite NetworkByID_lookup.
  destruct (networks _ !! id) as [n|] eqn:Hn; [|done]. by apply Hkeyed.
Qed.

(** No call changes the driver table: after any run it is the one the run
    started with, and every network a run from [New] left in the table has
    a driver of that table. *)
Theorem drivers_run (cs : list call) st :
  drivers (ctrl (run cs st).2) = drivers (ctrl st).
Proof.
  apply (run_invariant (λ st', drivers (ctrl st') = drivers (ctrl st)));
    [|done].
  intros c st' <-. apply exec_drivers.
Qed.

(** In a state a new controller reaches, [NetworkByName] does not depend on
    the order of the map range: it returns a network exactly when the name
    is not empty and that network is the one of the table with the name. *)
Theorem NetworkByName_run (enumerateDrivers : gmap string D) (e : Env)
    (cs : list call) name n :
  let st : state := (run cs (New enumerateDrivers e : state)).2 in
  (NetworkByName name st).1 = Some n ↔
  name ≠ "" ∧ net_name n = name ∧ networks (ctrl st) !! net_id n = Some n.
Proof.
  intros st.
  assert (names_unique (networks (ctrl st))) as Huniq
    by apply names_unique_run_inv.
  assert (keyed_by_id (networks (ctrl st))) as Hkeyed.
  { apply (run_invariant (λ st, keyed_by_id (networks (ctrl st)))).
    - apply exec_keyed_by_id.
    - by intros k n' Hk. }
  destruct (NetworkByName_cases name st) as [Hsound Hnone]. split.
  - intros (Hne & Hname & k & Hk)%Hsound. split_and!; [done..|].
    by rewrite (Hkeyed _ _ Hk).
  - intros (Hne & Hname & Hn).
    destruct ((NetworkByName name st).1) as [n'|] eqn:Hres.
    + destruct (Hsound _ eq_refl) as (_ & Hname' & k & Hk).
      f_equal.
      assert (k = net_id n) as -> by (eapply Huniq; [done..|congruence]).
      congruence.
    + destruct Hnone as [[?|Hall] _]; [done..|]. by destruct (Hall _ _ Hn).
Qed.


(** Every network a new controller holds after a run has a driver of the
    driver table. *)
Theorem network_driver_registered_run (enumerateDrivers : gmap string D)
    (e : Env) (cs : list call) (id : string) :
  match NetworkByID id (run cs (New enumerateDrivers e : state)).2 with
  | Some n => ∃ networkType, enumerateDrivers !! networkType = Some (net_driver n)
  | None => True
  end.
Proof.
  assert (drivers (ctrl (run cs (New enumerateDrivers e : state)).2)
            = enumerateDrivers ∧
          ∀ k n, networks (ctrl (run cs (New enumerateDrivers e : state)).2)
                   !! k = Some n →
                 ∃ t, enumerateDrivers !! t = Some (net_driver n)) as [_ Hreg].
  { apply (run_invariant (λ st : state,
      drivers (ctrl st) = enumerateDrivers ∧
      ∀ k n, networks (ctrl st) !! k = Some n →
             ∃ t, enumerateDrivers !! t = Some (net_driver n))); [|done].
    intros c st [Hdrv Hnets]. rewrite exec_drivers. split; [done|].
    rewrite exec_networks.
    destruct (created c st) as [n|] eqn:Hc; [|done].
    apply created_NewNetwork in Hc as (t & nm & o & _ & Hok).
    destruct (NewNetwork_post _ _ _ _ _ Hok) as (_ & _ & Hd & _).
    intros k n' Hk. unfold store_all in Hk. simpl in Hk.
    apply lookup_insert_Some in Hk as [[_ <-]|[_ Hk]].
    - exists t. by rewrite <- Hdrv.
    - by eapply Hnets. }
  rewrite NetworkByID_lookup.
  destruct (networks _ !! id) as [n|] eqn:Hn; [|done]. by eapply Hreg.
Qed.

(** *** More on the sandbox table *)

Lemma int_decr_zero_iff (z : Z) :
  - 2 ^ 63 ≤ z < 2 ^ 63 → int_decr z = 0 ↔ z = 1.
Proof.
  intros Hz. unfold int_decr, int_wrap. split; [|by intros ->].
  intros Hmod.
  destruct (decide (z = - 2 ^ 63)) as [->|Hmin]; [done|].
  rewrite Z.mod_small in Hmod by lia. lia.
Qed.

(** When the provider returns an error for a key without an entry,
    [sandboxAdd] returns that error and a nil sandbox, also when the provider
    handed a sandbox back with the error; nothing is stored, so the next
    [sandboxAdd] asks the provider again. *)
Theorem sandboxAdd_provider_error st key er :
  let st' := (sandboxAdd key st).2 in
  sandboxes (ctrl st) !! key = None →
  (NewSandbox key (env st)).1.2 = Some er →
  (sandboxAdd key st).1 = (None, Some er) ∧
  sandboxes (ctrl st') = sandboxes (ctrl st) ∧
  calls st' = calls st ++ [EvNewSandbox key] ∧
  calls (sandboxAdd key st').2 = calls st ++ [EvNewSandbox key; EvNewSandbox key].
Proof.
  intros st' Hkey Herr. subst st'.
  assert (sandboxAdd key st
          = ((None, Some er),
             log_call (EvNewSandbox key)
               (set_env (NewSandbox key (env st)).2 st))) as Hadd.
  { unfold sandboxAdd. rewrite Hkey.
    destruct (NewSandbox key (env st)) as [[sb err] e]. simpl in Herr.
    by subst err. }
  rewrite Hadd. simpl. split_and!; [done..|].
  generalize (NewSandbox key (env st)).2. intros e1.
  unfold sandboxAdd. simpl. rewrite Hkey.
  destruct (NewSandbox key e1) as [[sb [er'|]] e]; simpl;
    by rewrite <- app_assoc.
Qed.

(** [sandboxGet] after [sandboxAdd]: the other keys give what they gave
    before, and when [sandboxAdd] returned no error, its key gives the
    sandbox [sandboxAdd] returned. *)
Theorem sandboxAdd_then_sandboxGet st key :
  let st' := (sandboxAdd key st).2 in
  (∀ k, k ≠ key → sandboxGet k st' = sandboxGet k st) ∧
  ((sandboxAdd key st).1.2 = None →
   sandboxGet key st' = (sandboxAdd key st).1.1).
Proof.
  intros st'. subst st'. unfold sandboxGet, sandboxAdd.
  destruct (sandboxes (ctrl st) !! key) as [sData|] eqn:Hkey; simpl.
  - rewrite Hkey. done.
  - destruct (NewSandbox key (env st)) as [[sb [er|]] e]; simpl.
    + done.
    + split; [|by rewrite lookup_insert_eq].
      intros k Hk. by rewrite lookup_insert_ne.
Qed.

(** [sandboxAdd] on a key without an entry, then [sandboxRm]: the sandbox the
    provider made is destroyed and the table is the one before the two
    calls. *)
Theorem sandboxAdd_sandboxRm_restores st key sb e :
  let st1 := (sandboxAdd key st).2 in
  let st2 := (sandboxRm key st1).2 in
  sandboxes (ctrl st) !! key = None →
  NewSandbox key (env st) = ((Some sb, None), e) →
  (sandboxRm key st1).1 = Returned ∧
  sandboxes (ctrl st2) = sandboxes (ctrl st) ∧
  sandboxGet key st2 = None ∧
  calls st2 = calls st ++ [EvNewSandbox key; EvDestroy sb] ∧
  env st2 = Destroy sb e.
Proof.
  intros st1 st2 Hkey Hnew. subst st2 st1.
  rewrite (sandboxAdd_first _ _ _ _ Hkey Hnew).
  unfold sandboxRm, sandboxGet. simpl. rewrite lookup_insert_eq. simpl.
  rewrite delete_insert_eq, lookup_delete_eq, <- app_assoc.
  by rewrite delete_id.
Qed.

(** When the provider answers nil and no error, [sandboxAdd] stores the nil
    handle and returns it with no error; [sandboxRm] on that key then panics
    on the call of [Destroy] and leaves the entry in the table. *)
Theorem sandboxRm_nil_sandbox_panics st key e :
  let st1 := (sandboxAdd key st).2 in
  sandboxes (ctrl st) !! key = None →
  NewSandbox key (env st) = ((None, None), e) →
  (sandboxAdd key st).1 = (None, None) ∧
  sandboxRm key st1 = (Panicked, st1) ∧
  sandboxes (ctrl st1) !! key = Some {| sandbox := None; refCnt := 1 |}.
Proof.
  intros st1 Hkey Hnew. subst st1.
  rewrite (sandboxAdd_first _ _ _ _ Hkey Hnew). simpl.
  unfold sandboxRm. simpl. by rewrite lookup_insert_eq.
Qed.

(** What [sandboxRm] leaves of the tables. *)
Lemma sandboxRm_entries st key :
  let st' := (sandboxRm key st).2 in
  (∀ k sData, sandboxes (ctrl st') !! k = Some sData →
              sandboxes (ctrl st) !! k = Some sData) ∧
  (∀ k, k ≠ key → sandboxes (ctrl st') !! k = sandboxes (ctrl st) !! k) ∧
  networks (ctrl st') = networks (ctrl st) ∧
  drivers (ctrl st') = drivers (ctrl st).
Proof.
  intros st'. subst st'. unfold sandboxRm.
  case_decide; [|done]. destruct (sandbox _) as [sb|]; [|done]. simpl.
  split_and!; [|by intros k Hk; rewrite lookup_delete_ne|done..].
  by intros k sData [_ Hk]%lookup_delete_Some.
Qed.

(** [sandboxRm] adds no entry and changes none: an entry of the table after
    the call was there, the same, before; the entries of the other keys all
    stay, and so do the network and driver tables. *)
Theorem sandboxRm_frame st key :
  let st' := (sandboxRm key st).2 in
  (∀ k sData, sandboxes (ctrl st') !! k = Some sData →
              sandboxes (ctrl st) !! k = Some sData) ∧
  (∀ k, k ≠ key → sandboxes (ctrl st') !! k = sandboxes (ctrl st) !! k) ∧
  networks (ctrl st') = networks (ctrl st) ∧
  drivers (ctrl st') = drivers (ctrl st).
Proof. apply sandboxRm_entries. Qed.

(** On an entry whose count is not 1, [sandboxRm] changes nothing: the count
    it decrements is the one of a copy, and the entry keeps its count. *)
Theorem sandboxRm_count_not_one st key sData :
  sandboxes (ctrl st) !! key = Some sData →
  - 2 ^ 63 ≤ refCnt sData < 2 ^ 63 →
  refCnt sData ≠ 1 →
  sandboxRm key st = (Returned, st).
Proof.
  intros Hkey Hrange Hcnt. unfold sandboxRm. rewrite Hkey. simpl.
  case_decide as Hzero; [|done].
  by apply int_decr_zero_iff in Hzero.
Qed.


Lemma exec_counts_one (c : call) st :
  counts_one (sandboxes (ctrl st)) → counts_one (sandboxes (ctrl (exec c st))).
Proof.
  intros Hone.
  destruct c as [t o|t nm o| |W walker w|nm|id|k|k|k]; try by by_method.
  - simpl. unfold sandboxAdd.
    destruct (sandboxes (ctrl st) !! k) as [sData|]; [done|].
    destruct (NewSandbox k (env st)) as [[sb [er|]] e]; [done|]. simpl.
    intros k' sData [[_ <-]|[_ Hk']]%lookup_insert_Some; [done|].
    by eapply Hone.
  - simpl. intros k' sData Hk'. eapply Hone.
    by apply (sandboxRm_entries st k).
Qed.

(** In every state a new controller reaches, each entry of the sandbox table
    has the reference count 1, whatever the numbers of [sandboxAdd] and
    [sandboxRm] calls on its key were. *)
Theorem counts_one_run (enumerateDrivers : gmap string D) (e : Env)
    (cs : list call) key sData :
  sandboxes (ctrl (run cs (New enumerateDrivers e : state)).2) !! key
    = Some sData →
  refCnt sData = 1.
Proof.
  revert key sData.
  apply (run_invariant (λ st : state, counts_one (sandboxes (ctrl st)))).
  - apply exec_counts_one.
  - by intros k sData Hk.
Qed.

Lemma count_calls_app (p : event → bool) (l1 l2 : list event) :
  count_calls p (l1 ++ l2) = (count_calls p l1 + count_calls p l2)%nat.
Proof. induction l1 as [|ev l1 IH]; simpl; [done|]. rewrite IH. lia. Qed.

Lemma exec_destroy_le_create (c : call) st :
  (count_calls is_Destroy (calls st) + size (sandboxes (ctrl st))
   ≤ count_calls is_NewSandbox (calls st))%nat →
  (count_calls is_Destroy (calls (exec c st))
   + size (sandboxes (ctrl (exec c st)))
   ≤ count_calls is_NewSandbox (calls (exec c st)))%nat.
Proof.
  intros Hle.
  destruct c as [t o|t nm o| |W walker w|nm|id|k|k|k];
    try (by_method; rewrite ?count_calls_app; simpl; lia).
  - simpl. unfold sandboxAdd.
    destruct (sandboxes (ctrl st) !! k) as [sData|] eqn:Hk; [done|].
    destruct (NewSandbox k (env st)) as [[sb [er|]] e]; simpl;
      rewrite !count_calls_app; simpl; [lia|].
    rewrite map_size_insert_None by done. lia.
  - simpl. unfold sandboxRm.
    destruct (sandboxes (ctrl st) !! k) as [sData|] eqn:Hk; simpl.
    + case_decide; [|done]. destruct (sandbox sData) as [sb|]; [|done].
      simpl. rewrite !count_calls_app. simpl.
      assert (size (sandboxes (ctrl st)) ≠ O) as Hsize.
      { intros Hz%map_size_empty_iff. by rewrite Hz, lookup_empty in Hk. }
      rewrite map_size_delete_Some by done. lia.
    + done.
Qed.

(** In every state a new controller reaches, the [Destroy] calls made so far
    and the entries of the sandbox table together are at most as many as
    the calls made to the provider: no sandbox is destroyed twice, and none
    that the provider did not make. *)
Theorem destroy_le_create_run (enumerateDrivers : gmap string D) (e : Env)
    (cs : list call) :
  let st : state := (run cs (New enumerateDrivers e)).2 in
  (count_calls is_Destroy (calls st) + size (sandboxes (ctrl st))
   ≤ count_calls is_NewSandbox (calls st))%nat.
Proof.
  apply (run_invariant (λ st : state,
    (count_calls is_Destroy (calls st) + size (sandboxes (ctrl st))
     ≤ count_calls is_NewSandbox (calls st))%nat)).
  - apply exec_destroy_le_create.
  - simpl. rewrite map_size_empty. lia.
Qed.

(** *** Where a walk stops *)

Lemma walk_traced_stateless (p : network → bool) (l seen : list network) :
  (walk (traced (stateless p)) l ((), seen)).2 = seen ++ up_to_first p l.
Proof.
  revert seen. induction l as [|n l IH]; intros seen; simpl.
  - by rewrite app_nil_r.
  - unfold stateless at 1. destruct (p n); [done|].
    rewrite IH. by rewrite <- app_assoc.
Qed.

Lemma up_to_first_prefix (p : network → bool) (l : list network) :
  up_to_first p l `prefix_of` l.
Proof.
  induction l as [|n l IH]; simpl; [done|].
  destruct (p n).
  - by apply (prefix_app_r [n] [n] l).
  - by apply prefix_cons.
Qed.

Lemma up_to_first_hit_last (p : network → bool) (l : list network) i n :
  up_to_first p l !! i = Some n → p n = true →
  S i = length (up_to_first p l).
Proof.
  revert i. induction l as [|c l IH]; intros i; simpl; [done|].
  destruct (p c) eqn:Hc.
  - destruct i as [|i]; [done|]. simpl. by rewrite lookup_nil.
  - destruct i as [|i]; simpl.
    + intros [= ->]. congruence.
    + intros Hi Hn. f_equal. by apply IH.
Qed.

Lemma up_to_first_early (p : network → bool) (l : list network) :
  up_to_first p l ≠ l →
  ∃ n, last (up_to_first p l) = Some n ∧ p n = true.
Proof.
  induction l as [|c l IH]; simpl; [done|].
  destruct (p c) eqn:Hc.
  - intros _. by exists c.
  - intros Hne. destruct IH as (n & Hlast & Hn); [congruence|].
    exists n. split; [|done].
    destruct (up_to_first p l); [done|]. done.
Qed.

(** [WalkNetworks] with a walker that decides by the network alone: the
    networks it is called on are a prefix of the snapshot; a network on which
    it returned true is the last one visited; and if the walk did not cover
    the snapshot, it stopped on such a network.  The walk changes neither
    the controller nor the log of calls. *)
Theorem WalkNetworks_first_hit (p : network → bool) st :
  let r := WalkNetworks (traced (stateless p)) st ((), []) in
  let visited := r.2.2 in
  visited `prefix_of` snapshot st ∧
  (∀ i n, visited !! i = Some n → p n = true → S i = length visited) ∧
  (visited ≠ snapshot st → ∃ n, last visited = Some n ∧ p n = true) ∧
  ctrl r.1 = ctrl st ∧ calls r.1 = calls st.
Proof.
  intros r visited. subst visited r. rewrite WalkNetworks_eq. simpl.
  rewrite walk_traced_stateless. simpl. split_and!.
  - apply up_to_first_prefix.
  - apply up_to_first_hit_last.
  - apply up_to_first_early.
  - apply Networks_ctrl.
  - by rewrite Networks_eq.
Qed.


(** *** Compositions *)

(** After a successful [NewNetwork], a further [NewNetwork] with the same
    name and any registered type fails with [NetworkNameError], makes no
    call to a driver and leaves the network table as it is. *)
Theorem NewNetwork_twice st networkType name options n
    networkType' options' d' :
  let st' := (NewNetwork networkType name options st).2 in
  let r := NewNetwork networkType' name options' st' in
  (NewNetwork networkType name options st).1.1 = Some n →
  drivers (ctrl st) !! networkType' = Some d' →
  r.1 = (None, Some (NetworkNameError name)) ∧
  calls r.2 = calls st' ∧
  networks (ctrl r.2) = networks (ctrl st').
Proof.
  intros st' r Hok Hd'. subst r st'.
  destruct (NewNetwork_post _ _ _ _ _ Hok)
    as (_ & Hname & _ & _ & _ & _ & _ & _ & Htable & Hdrv & _).
  set (st' := (NewNetwork networkType name options st).2) in *.
  assert (name_in_use name (map_range (networks (ctrl st')) (env st')).1
          = true) as Huse.
  { apply name_in_use_range. exists (net_id n), n. split; [|done].
    rewrite Htable. apply lookup_insert_eq. }
  assert (NewNetwork networkType' name options' st'
          = ((None, Some (NetworkNameError name)),
             set_env (map_range (networks (ctrl st')) (env st')).2 st'))
    as Hsecond.
  { unfold NewNetwork at 1. rewrite Hdrv, Hd'.
    destruct (map_range (networks (ctrl st')) (env st')) as [entries e].
    simpl in Huse. by rewrite Huse. }
  by rewrite Hsecond.
Qed.

Lemma elem_of_store_all (h : list network) (m : gmap UUID network) k n :
  store_all h m !! k = Some n → n ∈ h ∨ m !! k = Some n.
Proof.
  revert m. induction h as [|c h IH]; intros m; [by right|].
  change (store_all (c :: h) m) with (store_all h (<[net_id c := c]> m)).
  intros [Hin|Hk]%IH; [left; by right|].
  apply lookup_insert_Some in Hk as [[_ <-]|[_ Hk]]; [left; left|by right].
Qed.

(** Whatever [NetworkByID] returns after a run of a new controller is a
    network that a [NewNetwork] call of the run returned. *)
Theorem NetworkByID_only_returned (enumerateDrivers : gmap string D) (e : Env)
    (cs : list call) (id : string) :
  let h := (run cs (New enumerateDrivers e : state)).1 in
  match NetworkByID id (run cs (New enumerateDrivers e : state)).2 with
  | Some n => n ∈ h ∧ net_id n = id
  | None => True
  end.
Proof.
  intros h. pose proof (keyed_by_id_run_inv enumerateDrivers e cs) as Hkeyed.
  rewrite NetworkByID_lookup.
  destruct (networks _ !! id) as [n|] eqn:Hn; [|done].
  split; [|by apply Hkeyed].
  rewrite run_networks in Hn.
  by apply elem_of_store_all in Hn as [Hin|?].
Qed.

(** A new controller is empty: [Networks] returns an empty slice, a walk calls
    its walker on nothing, no identifier, name or key finds anything. *)
Theorem New_is_empty (enumerateDrivers : gmap string D) (e : Env)
    {W : Type} (walker : network → W → bool * W) (w : W) (id name key : string) :
  let st : state := New enumerateDrivers e in
  snapshot st = [] ∧
  (WalkNetworks (traced walker) st (w, [])).2 = (w, []) ∧
  NetworkByID id st = None ∧
  (NetworkByName name st).1 = None ∧
  sandboxGet key st = None.
Proof.
  intros st.
  assert (snapshot st = []) as Hnil.
  { apply Permutation_nil_r. rewrite snapshot_perm. simpl.
    by rewrite map_to_list_empty. }
  split_and!; [done| |done| |done].
  - rewrite WalkNetworks_eq. simpl. by rewrite Hnil.
  - rewrite NetworkByName_eq. case_decide; [|done]. simpl. by rewrite Hnil.
Qed.


End properties.

(** ** The properties on the concrete collaborators *)

(** Two calls of [sandboxAdd "c1"] on a new controller: one sandbox, and a
    reference count of 1. *)
Lemma sandboxAdd_times_refCnt_witness :
  (sandboxAdd_times 2 "c1" Scenario.fresh).1
    = [(Some "ns-c1", None); (Some "ns-c1", None)] ∧
  calls (sandboxAdd_times 2 "c1" Scenario.fresh).2 = [EvNewSandbox "c1"] ∧
  sandboxes (ctrl (sandboxAdd_times 2 "c1" Scenario.fresh).2) !! "c1"
    = Some {| sandbox := Some "ns-c1"; refCnt := 1 |}.
Proof.
  refine (sandboxAdd_times_refCnt 2 Scenario.fresh "c1" (Some "ns-c1") 1%nat
            _ _ _).
  - lia.
  - vm_compute. reflexivity.
  - vm_compute. reflexivity.
Defined.

(** Two calls of [sandboxAdd "c1"], then [sandboxRm "c1"]: the first removal
    destroys the sandbox and removes the entry. *)
Lemma sandboxRm_after_adds_witness :
  let st1 := (sandboxAdd_times 2 "c1" Scenario.fresh).2 in
  let st2 := (sandboxRm "c1" st1).2 in
  (sandboxRm "c1" st1).1 = Returned ∧
  calls st2 = calls st1 ++ [EvDestroy "ns-c1"] ∧
  sandboxes (ctrl st2) !! "c1" = None ∧
  sandboxRm_times 1 "c1" st2 = ([Returned], st2).
Proof.
  refine (sandboxRm_after_adds 2 1 Scenario.fresh "c1" "ns-c1" 1%nat _ _ _).
  - lia.
  - vm_compute. reflexivity.
  - vm_compute. reflexivity.
Defined.

(** A second [sandboxAdd "c1"]. *)
Lemma sandboxAdd_existing_entry_witness :
  let st := (sandboxAdd "c1" Scenario.fresh).2 in
  sandboxAdd "c1" st = ((Some "ns-c1", None), st) ∧
  sandboxes (ctrl (sandboxAdd "c1" st).2) = sandboxes (ctrl st) ∧
  refCnt <$> sandboxes (ctrl (sandboxAdd "c1" st).2) !! "c1" = Some 1.
Proof.
  refine (sandboxAdd_existing_entry (sandboxAdd "c1" Scenario.fresh).2 "c1"
            {| sandbox := Some "ns-c1"; refCnt := 1 |} _).
  vm_compute. reflexivity.
Defined.

(** [sandboxRm "c1"] on a new controller. *)
Lemma sandboxRm_missing_key_witness :
  sandboxRm "c1" Scenario.fresh = (Returned, Scenario.fresh) ∧
  sandboxes (ctrl (sandboxRm "c1" Scenario.fresh).2)
    = sandboxes (ctrl Scenario.fresh) ∧
  calls (sandboxRm "c1" Scenario.fresh).2 = calls Scenario.fresh ∧
  env (sandboxRm "c1" Scenario.fresh).2 = env Scenario.fresh.
Proof.
  refine (sandboxRm_missing_key Scenario.fresh "c1" _).
  vm_compute. reflexivity.
Defined.

(** A second network "net1". *)
Lemma NewNetwork_duplicate_name_witness :
  (NewNetwork "null" "net1" () Scenario.one_net).1
    = (None, Some (NetworkNameError "net1")) ∧
  calls (NewNetwork "null" "net1" () Scenario.one_net).2
    = calls Scenario.one_net ∧
  networks (ctrl (NewNetwork "null" "net1" () Scenario.one_net).2)
    = networks (ctrl Scenario.one_net) ∧
  ctrl (NewNetwork "null" "net1" () Scenario.one_net).2
    = ctrl Scenario.one_net.
Proof.
  refine (NewNetwork_duplicate_name Scenario.one_net "null" "net1" () "null"
            "id"
            {| net_name := "net1"; net_id := "id"; net_driver := "null";
               net_endpoints := ∅; net_addr := 0 |} _ _ _).
  - vm_compute. reflexivity.
  - vm_compute. reflexivity.
  - reflexivity.
Defined.

(** A network of the driver that fails. *)
Lemma NewNetwork_driver_error_witness :
  (NewNetwork "broken" "net3" () Scenario.one_net).1
    = (None, Some (ErrOpaque "create failed")) ∧
  networks (ctrl (NewNetwork "broken" "net3" () Scenario.one_net).2)
    = networks (ctrl Scenario.one_net) ∧
  calls (NewNetwork "broken" "net3" () Scenario.one_net).2
    = calls Scenario.one_net ++ [EvCreateNetwork "broken" "idii" ()].
Proof.
  refine (NewNetwork_driver_error Scenario.one_net "broken" "net3" () "broken"
            (ErrOpaque "create failed") _ _ _).
  - vm_compute. reflexivity.
  - apply (bool_decide_unpack
             (map_Forall (λ _ n, net_name n ≠ "net3")
                (networks (ctrl Scenario.one_net)))).
    vm_compute. reflexivity.
  - vm_compute. reflexivity.
Defined.

(** Three calls on a new controller, two of them [NewNetwork]. *)
Lemma NetworkByID_run_witness :
  let cs := [CallNewNetwork "null" "net1" (); CallSandboxAdd "c1";
             CallNewNetwork "null" "net2" ()] in
  let st := (run cs Scenario.fresh).2 in
  NetworkByID "other" st = None ∧
  NetworkByID "id" st
    = Some {| net_name := "net1"; net_id := "id"; net_driver := "null";
              net_endpoints := ∅; net_addr := 0 |}.
Proof.
  intros cs st.
  destruct (NetworkByID_run (Endpoint := unit) Scenario.registry O cs)
    as [Hnone Hsome].
  split.
  - apply Hnone.
    apply (bool_decide_unpack _). vm_compute. reflexivity.
  - apply (Hsome []
             {| net_name := "net1"; net_id := "id"; net_driver := "null";
                net_endpoints := ∅; net_addr := 0 |}
             [{| net_name := "net2"; net_id := "idiii"; net_driver := "null";
                 net_endpoints := ∅; net_addr := 1 |}]).
    + vm_compute. reflexivity.
    + apply (bool_decide_unpack _). vm_compute. reflexivity.
Defined.

(** Walking two networks. *)
Lemma WalkNetworks_visits_witness :
  (∃ n, head (snapshot Scenario.two_nets) = Some n ∧
     (WalkNetworks (traced (λ _ (w : unit), (true, w))) Scenario.two_nets
        ((), [])).2.2 = [n]) ∧
  (WalkNetworks (traced (λ _ (w : unit), (false, w))) Scenario.two_nets
     ((), [])).2.2 = snapshot Scenario.two_nets.
Proof.
  assert (networks (ctrl Scenario.two_nets) ≠ ∅) as Hne.
  { apply (bool_decide_unpack _). vm_compute. reflexivity. }
  split.
  - apply (WalkNetworks_visits (λ _ (w : unit), (true, w))
             Scenario.two_nets () Hne). reflexivity.
  - apply (WalkNetworks_visits (λ _ (w : unit), (false, w))
             Scenario.two_nets () Hne). reflexivity.
Defined.

(** A slice taken when the table had one network, after a second network was
    created: the table has two entries, the slice the one it had. *)
Lemma Networks_snapshot_witness :
  let cs := [CallNewNetwork "null" "net2" ()] in
  let ref := (Networks Scenario.one_net).1 in
  let st1 := (Networks Scenario.one_net).2 in
  slices (run cs st1).2 !! ref = Some (snapshot Scenario.one_net) ∧
  length (snapshot Scenario.one_net) = 1%nat ∧
  size (networks (ctrl (run cs st1).2)) = 2%nat.
Proof.
  intros cs ref st1. split.
  - apply (Networks_snapshot Scenario.one_net cs).
  - vm_compute. split; reflexivity.
Defined.

(** Configuring a type without a driver, a driver that accepts, and one that
    refuses. *)
Lemma ConfigureNetworkDriver_spec_witness :
  ConfigureNetworkDriver "bridge" () Scenario.fresh
    = (Some (NetworkTypeError "bridge"), Scenario.fresh) ∧
  (ConfigureNetworkDriver "null" () Scenario.fresh).1 = None ∧
  (ConfigureNetworkDriver "broken" () Scenario.fresh).1
    = Some (ErrOpaque "config failed").
Proof.
  split_and!.
  - exact (ConfigureNetworkDriver_spec Scenario.fresh "bridge" ()).
  - exact (proj1 (ConfigureNetworkDriver_spec Scenario.fresh "null" ())).
  - exact (proj1 (ConfigureNetworkDriver_spec Scenario.fresh "broken" ())).
Defined.

(** ** The further properties on the concrete collaborators *)

(** The first network of a new controller. *)
Lemma NewNetwork_success_witness :
  let r := NewNetwork "null" "net1" () Scenario.fresh in
  r.1.1 = Some Samples.net1 ∧ r.1.2 = None ∧
  calls r.2 = [EvCreateNetwork "null" "id" ()] ∧
  networks (ctrl r.2) = {[ "id" := Samples.net1 ]}.
Proof.
  assert ((NewNetwork "null" "net1" () Scenario.fresh).1.1
          = Some Samples.net1) as Hok by (vm_compute; reflexivity).
  destruct (NewNetwork_success Scenario.fresh "null" "net1" () Samples.net1 Hok)
    as (Herr & _ & _ & _ & _ & _ & _ & Hcalls & Htable & _).
  split_and!; [exact Hok|exact Herr|exact Hcalls|exact Htable].
Defined.

(** Looking the first network up, with a name and without one. *)
Lemma NewNetwork_then_lookup_witness :
  (let st' := (NewNetwork "null" "net1" () Scenario.fresh).2 in
   NetworkByID "id" st' = Some Samples.net1 ∧
   (NetworkByName "net1" st').1 = Some Samples.net1) ∧
  (let st' := (NewNetwork "null" "" () Scenario.fresh).2 in
   NetworkByID "id" st' = Some Samples.unnamed ∧
   (NetworkByName "" st').1 = None).
Proof.
  split.
  - assert ((NewNetwork "null" "net1" () Scenario.fresh).1.1
            = Some Samples.net1) as Hok by (vm_compute; reflexivity).
    destruct (NewNetwork_then_lookup Scenario.fresh "null" "net1" ()
                Samples.net1 Hok) as (Hid & _ & Hname).
    split; [exact Hid|exact Hname].
  - assert ((NewNetwork "null" "" () Scenario.fresh).1.1
            = Some Samples.unnamed) as Hok by (vm_compute; reflexivity).
    destruct (NewNetwork_then_lookup Scenario.fresh "null" "" ()
                Samples.unnamed Hok) as (Hid & _ & Hname).
    split; [exact Hid|exact Hname].
Defined.

(** The name "net1" a second time, with the other driver. *)
Lemma NewNetwork_twice_witness :
  let st' := (NewNetwork "null" "net1" () Scenario.fresh).2 in
  let r := NewNetwork "broken" "net1" () st' in
  r.1 = (None, Some (NetworkNameError "net1")) ∧
  calls r.2 = calls st' ∧
  networks (ctrl r.2) = networks (ctrl st').
Proof.
  refine (NewNetwork_twice Scenario.fresh "null" "net1" () Samples.net1
            "broken" () "broken" _ _).
  - vm_compute. reflexivity.
  - vm_compute. reflexivity.
Defined.

(** The provider refuses the key "bad". *)
Lemma sandboxAdd_provider_error_witness :
  let st' := (sandboxAdd "bad" Faulty.fresh).2 in
  (sandboxAdd "bad" Faulty.fresh).1 = (None, Some (ErrOpaque "no namespace")) ∧
  sandboxes (ctrl st') = sandboxes (ctrl Faulty.fresh) ∧
  calls st' = [EvNewSandbox "bad"] ∧
  calls (sandboxAdd "bad" st').2 = [EvNewSandbox "bad"; EvNewSandbox "bad"].
Proof.
  refine (sandboxAdd_provider_error Faulty.fresh "bad"
            (ErrOpaque "no namespace") _ _).
  - vm_compute. reflexivity.
  - vm_compute. reflexivity.
Defined.

(** One [sandboxAdd "c1"], one [sandboxRm "c1"]. *)
Lemma sandboxAdd_sandboxRm_restores_witness :
  let st1 := (sandboxAdd "c1" Scenario.fresh).2 in
  let st2 := (sandboxRm "c1" st1).2 in
  (sandboxRm "c1" st1).1 = Returned ∧
  sandboxes (ctrl st2) = sandboxes (ctrl Scenario.fresh) ∧
  sandboxGet "c1" st2 = None ∧
  calls st2 = [EvNewSandbox "c1"; EvDestroy "ns-c1"] ∧
  env st2 = 2%nat.
Proof.
  refine (sandboxAdd_sandboxRm_restores Scenario.fresh "c1" "ns-c1" 1%nat _ _).
  - vm_compute. reflexivity.
  - vm_compute. reflexivity.
Defined.

(** The provider answers nil on the key "nil". *)
Lemma sandboxRm_nil_sandbox_panics_witness :
  let st1 := (sandboxAdd "nil" Faulty.fresh).2 in
  (sandboxAdd "nil" Faulty.fresh).1 = (None, None) ∧
  sandboxRm "nil" st1 = (Panicked, st1) ∧
  sandboxes (ctrl st1) !! "nil" = Some {| sandbox := None; refCnt := 1 |}.
Proof.
  refine (sandboxRm_nil_sandbox_panics Faulty.fresh "nil" 1%nat _ _).
  - vm_compute. reflexivity.
  - vm_compute. reflexivity.
Defined.

(** [sandboxRm] on an entry with the count 2. *)
Lemma sandboxRm_count_not_one_witness :
  sandboxRm "c1" Samples.two_refs = (Returned, Samples.two_refs).
Proof.
  refine (sandboxRm_count_not_one Samples.two_refs "c1"
            {| sandbox := Some "ns-c1"; refCnt := 2 |} _ _ _).
  - vm_compute. reflexivity.
  - simpl. lia.
  - simpl. lia.
Defined.

(** Two [sandboxAdd "c1"] among other calls. *)
Lemma counts_one_run_witness :
  let cs := [CallSandboxAdd "c1"; CallSandboxAdd "c2"; CallSandboxAdd "c1";
             CallSandboxRm "c2"] in
  sandboxes (ctrl (run cs Scenario.fresh).2) !! "c1"
    = Some {| sandbox := Some "ns-c1"; refCnt := 1 |} ∧
  refCnt {| sandbox := Some "ns-c1"; refCnt := 1 |} = 1.
Proof.
  intros cs.
  assert (sandboxes (ctrl (run cs Scenario.fresh).2) !! "c1"
          = Some {| sandbox := Some "ns-c1"; refCnt := 1 |}) as Hentry
    by (vm_compute; reflexivity).
  split; [exact Hentry|].
  exact (counts_one_run (Endpoint := unit) Scenario.registry O cs "c1" _ Hentry).
Defined.
